(** * go-crud-api: the movie store service

    A shallow embedding of the HTTP handlers of [main.go] (package
    [main]) and of the start-up code of [main], followed by the
    properties of the handlers.

    The collection [movies] is a Go slice of [Movie] values; it is
    modelled as a [list Movie].  For a slice [s] the Go expressions
    [s[:i]], [s[i+1:]], [append(a, b...)] and [append(a, x)] are
    [take i s], [drop (S i) s], [a ++ b] and [a ++ [x]].  The handlers
    are functions from the request, the response writer and the
    process state to the new process state and the response writer. *)

From Stdlib Require Import ZArith Ascii DecimalString DecimalPos DecimalZ.
From stdpp Require Import base option list gmap strings.

Local Open Scope string_scope.
Local Open Scope list_scope.

(** ** Data model *)

Record Director := mkDirector {
  Firstname : string;
  Lastname : string
}.

(** The field [Director *Director] is a pointer that may be nil. *)
Record Movie := mkMovie {
  ID : string;
  Isbn : string;
  Title : string;
  Director' : option Director
}.

(** [var movie Movie]: the zero value of the struct. *)
Definition zeroMovie : Movie :=
  {| ID := ""; Isbn := ""; Title := ""; Director' := None |}.

(** [movie.ID = v] *)
Definition set_ID (v : string) (m : Movie) : Movie :=
  {| ID := v; Isbn := Isbn m; Title := Title m; Director' := Director' m |}.

#[global] Instance Director_eq_dec : EqDecision Director.
Proof. solve_decision. Defined.

#[global] Instance Movie_eq_dec : EqDecision Movie.
Proof. solve_decision. Defined.

#[global] Instance Movie_inhabited : Inhabited Movie := populate zeroMovie.

(** ** The HTTP layer

    What [json.NewEncoder(w).Encode(v)] is handed: one movie or the
    whole slice.  The JSON text itself is produced by the library. *)
Inductive Encoded :=
  | EncMovie (m : Movie)
  | EncMovies (ms : list Movie).

(** [http.ResponseWriter]: the header map, the status code once it has
    been sent, and the values written to the body so far. *)
Record ResponseWriter := mkResponseWriter {
  Header : gmap string string;
  statusCode : option Z;
  written : list Encoded
}.

Definition newResponseWriter : ResponseWriter :=
  {| Header := ∅; statusCode := None; written := [] |}.

(** [w.Header().Set(k, v)] *)
Definition Header_Set (k v : string) (w : ResponseWriter) : ResponseWriter :=
  {| Header := <[k := v]> (Header w);
     statusCode := statusCode w;
     written := written w |}.

(** [json.NewEncoder(w).Encode(v)]: a write to the body; the first write
    sends status 200 when no status was sent before. *)
Definition Encode (v : Encoded) (w : ResponseWriter) : ResponseWriter :=
  {| Header := Header w;
     statusCode := Some (default 200%Z (statusCode w));
     written := written w ++ [v] |}.

(** The status the client receives once the handler has returned: 200
    when the handler never sent one. *)
Definition status (w : ResponseWriter) : Z := default 200%Z (statusCode w).

(** [*http.Request], as far as the handlers read it: the route variables
    given by [mux.Vars(r)] and the bytes of [r.Body]. *)
Record Request := mkRequest {
  Vars : gmap string string;
  Body : string
}.

(** [params["id"]]: a Go map lookup, the empty string for a missing key. *)
Definition params_id (params : gmap string string) : string :=
  default "" (params !! "id").

(** The error value of [Decode], which every handler discards. *)
Inductive DecodeError :=
  | SyntaxError
  | UnmarshalTypeError
  | UnexpectedEOF.

(** [strconv.Itoa] *)
Definition Itoa (n : Z) : string := NilZero.string_of_int (Z.to_int n).

(** The decimal string read back, [None] when it is not a number. *)
Definition Atoi (s : string) : option Z := Z.of_int <$> NilZero.int_of_string s.

(** ** The scan shared by the three handlers that take an id

    [for i := 0; i < len(movies); i++ { if movies[i].ID == id { ... } }]
    where the body leaves the loop ([break] or [return]) at the first
    index that passes the test.  [scan] gives this index, [None] when
    the loop runs to its end.  [fuel] bounds the number of iterations. *)
Fixpoint scan (fuel : nat) (id : string) (movies : list Movie) (i : nat)
  : option nat :=
  match fuel with
  | O => None
  | S fuel' =>
      if decide (i < length movies) then
        if decide (ID (movies !!! i) = id) then Some i
        else scan fuel' id movies (S i)
      else None
  end.

Definition firstMatch (id : string) (movies : list Movie) : option nat :=
  scan (length movies) id movies 0.

(** ** The seed records of [main] and the routes it registers *)

Definition seed1 : Movie :=
  {| ID := "1"; Isbn := "123456"; Title := "Movie One";
     Director' := Some {| Firstname := "Lebron"; Lastname := "James" |} |}.

Definition seed2 : Movie :=
  {| ID := "2"; Isbn := "654321"; Title := "Movie Two";
     Director' := Some {| Firstname := "Joe"; Lastname := "Biden" |} |}.

(** The five bindings of [r.HandleFunc(...).Methods(...)]: a routed
    request names its handler, and [{id}] is the route variable. *)
Inductive Route :=
  | GET_movies
  | GET_movies_id (id : string)
  | POST_movies
  | PUT_movies_id (id : string)
  | DELETE_movies_id (id : string).

Section Handlers.

(** [json.NewDecoder(r.Body).Decode(&movie)]: the body and the target
    before the call give the target after the call and the error. *)
Variable Decode : string -> Movie -> Movie * option DecodeError.

(** The source of [math/rand] and [rand.Intn(n)] drawing from it. *)
Variable Rng : Type.
Variable Intn : Z -> Rng -> Z * Rng.

(** The state of the process: the global [movies] and the random
    source. *)
Record State := mkState {
  movies : list Movie;
  rng : Rng
}.

Definition set_movies (ms : list Movie) (s : State) : State :=
  {| movies := ms; rng := rng s |}.

Definition getMovies (r : Request) (w : ResponseWriter) (s : State)
  : State * ResponseWriter :=
  let w := Header_Set "Content-Type" "application/json" w in
  (s, Encode (EncMovies (movies s)) w).

Definition deleteMovie (r : Request) (w : ResponseWriter) (s : State)
  : State * ResponseWriter :=
  let w := Header_Set "Content-Type" "application/json" w in
  let params := Vars r in
  match firstMatch (params_id params) (movies s) with
  | Some i =>
      (set_movies (take i (movies s) ++ drop (S i) (movies s)) s, w)
  | None => (s, w)
  end.

Definition getMovie (r : Request) (w : ResponseWriter) (s : State)
  : State * ResponseWriter :=
  let w := Header_Set "Content-Type" "application/json" w in
  let params := Vars r in
  match firstMatch (params_id params) (movies s) with
  | Some i => (s, Encode (EncMovie (movies s !!! i)) w)
  | None => (s, w)
  end.

Definition createMovie (r : Request) (w : ResponseWriter) (s : State)
  : State * ResponseWriter :=
  let w := Header_Set "Content-Type" "application/json" w in
  let movie := zeroMovie in
  let movie := (Decode (Body r) movie).1 in
  let '(n, g) := Intn 1000000 (rng s) in
  let movie := set_ID (Itoa n) movie in
  let s := {| movies := movies s ++ [movie]; rng := g |} in
  (s, Encode (EncMovie movie) w).

Definition updateMovie (r : Request) (w : ResponseWriter) (s : State)
  : State * ResponseWriter :=
  let w := Header_Set "Content-Type" "application/json" w in
  let params := Vars r in
  match firstMatch (params_id params) (movies s) with
  | Some i =>
      let s := set_movies (take i (movies s) ++ drop (S i) (movies s)) s in
      let movie := zeroMovie in
      let movie := (Decode (Body r) movie).1 in
      let movie := set_ID (params_id params) movie in
      let s := set_movies (movies s ++ [movie]) s in
      (s, Encode (EncMovie movie) w)
  | None => (s, w)
  end.

(** ** [main]: the start state and the routes *)

(** [var movies []Movie] is nil; [main] appends the two seeds. *)
Definition main_init (g : Rng) : State :=
  let movies : list Movie := [] in
  let movies := movies ++ [seed1] in
  let movies := movies ++ [seed2] in
  {| movies := movies; rng := g |}.

(** One request served from a fresh response writer. *)
Definition serve (rt : Route) (body : string) (s : State)
  : State * ResponseWriter :=
  let w := newResponseWriter in
  match rt with
  | GET_movies => getMovies (mkRequest ∅ body) w s
  | GET_movies_id id => getMovie (mkRequest {[ "id" := id ]} body) w s
  | POST_movies => createMovie (mkRequest ∅ body) w s
  | PUT_movies_id id => updateMovie (mkRequest {[ "id" := id ]} body) w s
  | DELETE_movies_id id => deleteMovie (mkRequest {[ "id" := id ]} body) w s
  end.

End Handlers.

Arguments mkState {Rng} _ _.
Arguments movies {Rng} _.
Arguments rng {Rng} _.
Arguments set_movies {Rng} _ _.
Arguments getMovies {Rng} _ _ _.
Arguments deleteMovie {Rng} _ _ _.
Arguments getMovie {Rng} _ _ _.
Arguments createMovie _ {Rng} _ _ _ _.
Arguments updateMovie _ {Rng} _ _ _.
Arguments main_init {Rng} _.
Arguments serve _ {Rng} _ _ _ _.


(** ** Specification vocabulary *)

(** Record [m] sits at index [i] and is the first one whose id is [id]. *)
Definition first_at (id : string) (ms : list Movie) (i : nat) (m : Movie)
  : Prop :=
  ms !! i = Some m /\ ID m = id /\
  forall j m', j < i -> ms !! j = Some m' -> ID m' <> id.

(** The number of records whose id is [id]. *)
Definition occurrences (id : string) (ms : list Movie) : nat :=
  length (filter (fun m => ID m = id) ms).

(** The index of the last record. *)
Definition last_index (ms : list Movie) : nat := pred (length ms).


(** The response of a handler that only set the content type. *)
Definition empty_response : ResponseWriter :=
  {| Header := {[ "Content-Type" := "application/json" ]};
     statusCode := None;
     written := [] |}.

(** ** Test doubles for the two libraries

    A random source that replays a given list of draws, reduced into the
    requested range, and draws 0 once the list is used up. *)
Definition replayIntn (n : Z) (g : list Z) : Z * list Z :=
  match g with
  | [] => (0%Z, [])
  | x :: g' => ((x `mod` n)%Z, g')
  end.

Definition dquote : string := String "034"%char "".

(** [{"isbn":"999","title":"New","director":{"firstname":"A","lastname":"B"}}] *)
Definition body_new : string :=
  String.concat dquote
    ["{"; "isbn"; ":"; "999"; ","; "title"; ":"; "New"; ",";
     "director"; ":{"; "firstname"; ":"; "A"; ","; "lastname"; ":"; "B"; "}}"].

(** [{"id":"42","title":"Other"}] *)
Definition body_other : string :=
  String.concat dquote
    ["{"; "id"; ":"; "42"; ","; "title"; ":"; "Other"; "}"].

(** [{"title":] *)
Definition body_broken : string :=
  String.concat dquote ["{"; "title"; ":"].

(** [{"title":"X"}}]: a complete object followed by one more brace. *)
Definition body_trailing : string :=
  String.concat dquote ["{"; "title"; ":"; "X"; "}}"].

(** What [encoding/json] does with one request body: whether
    [json.Valid] holds of the bytes, what the first [Decode] of the
    stream stores into its target, and the error that call returns.
    [Decode] reads the first complete JSON value of the stream and
    leaves the bytes after it unread. *)
Record Fixture := mkFixture {
  fx_valid : bool;
  fx_store : Movie -> Movie;
  fx_err : option DecodeError
}.

(** The bodies the handlers are run on below.  The truncated body ends
    inside its first value: [Decode] returns [io.ErrUnexpectedEOF] and
    stores nothing.  The body with the extra brace is not JSON, but its
    first value is a complete object: [Decode] stores the title and
    returns no error. *)
Definition stub_table : list (string * Fixture) :=
  [ (body_new,
     {| fx_valid := true;
        fx_store := fun m =>
          {| ID := ID m; Isbn := "999"; Title := "New";
             Director' := Some {| Firstname := "A"; Lastname := "B" |} |};
        fx_err := None |});
    (body_other,
     {| fx_valid := true;
        fx_store := fun m =>
          {| ID := "42"; Isbn := Isbn m; Title := "Other";
             Director' := Director' m |};
        fx_err := None |});
    ("{}",
     {| fx_valid := true; fx_store := fun m => m; fx_err := None |});
    (body_broken,
     {| fx_valid := false; fx_store := fun m => m;
        fx_err := Some UnexpectedEOF |});
    (body_trailing,
     {| fx_valid := false;
        fx_store := fun m =>
          {| ID := ID m; Isbn := Isbn m; Title := "X";
             Director' := Director' m |};
        fx_err := None |}) ].

Definition stub_lookup (b : string) : option Fixture :=
  snd <$> find (fun p => bool_decide (p.1 = b)) stub_table.

(** A decoder that replays the table.  A body outside the table gets a
    syntax error and an untouched target; nothing below decodes such a
    body. *)
Definition stubDecode (b : string) (m : Movie) : Movie * option DecodeError :=
  match stub_lookup b with
  | Some fx => (fx_store fx m, fx_err fx)
  | None => (m, Some SyntaxError)
  end.


(** * Properties *)

(** ** The scan *)

Lemma scan_list_find fuel id (ms : list Movie) i :
  length ms <= i + fuel ->
  scan fuel id ms i
  = (fun p => i + p.1) <$> list_find (fun m => ID m = id) (drop i ms).
Proof.
  revert i. induction fuel as [|fuel IH]; intros i Hlen; simpl.
  - rewrite drop_ge by lia. reflexivity.
  - destruct (decide (i < length ms)) as [Hi|Hi].
    + destruct (lookup_lt_is_Some_2 ms i Hi) as [m Hm].
      rewrite (list_lookup_total_correct _ _ _ Hm).
      rewrite (drop_S _ _ _ Hm). simpl.
      destruct (decide (ID m = id)) as [Heq|Hne]; simpl.
      * f_equal. lia.
      * rewrite IH by lia.
        destruct (list_find _ (drop (S i) ms)) as [[k x]|]; simpl;
          [f_equal; lia | reflexivity].
    + rewrite drop_ge by lia. reflexivity.
Qed.

(** The fuel [len(movies)] given by the handlers is enough: more fuel
    gives the same index. *)
Lemma scan_fuel_enough fuel id (ms : list Movie) :
  length ms <= fuel -> scan fuel id ms 0 = firstMatch id ms.
Proof.
  intros H. unfold firstMatch.
  rewrite !scan_list_find by lia. reflexivity.
Qed.

Lemma firstMatch_find id (ms : list Movie) :
  firstMatch id ms = fst <$> list_find (fun m => ID m = id) ms.
Proof.
  unfold firstMatch. rewrite scan_list_find by lia.
  rewrite drop_0. reflexivity.
Qed.

Lemma firstMatch_Some id (ms : list Movie) i :
  firstMatch id ms = Some i <-> exists m, first_at id ms i m.
Proof.
  rewrite firstMatch_find. unfold first_at. split.
  - destruct (list_find _ ms) as [[k x]|] eqn:E; simpl; [|discriminate].
    intros [= ->]. apply list_find_Some in E as (Hx & HP & Hlt).
    exists x. repeat split; [assumption..|].
    intros j m' Hj Hm'. exact (Hlt j m' Hm' Hj).
  - intros (m & Hm & HP & Hlt).
    assert (list_find (fun m => ID m = id) ms = Some (i, m)) as ->;
      [|reflexivity].
    apply list_find_Some. repeat split; [assumption..|].
    intros j y Hy Hj. exact (Hlt j y Hj Hy).
Qed.

Lemma firstMatch_None id (ms : list Movie) :
  firstMatch id ms = None <-> id ∉ ID <$> ms.
Proof.
  rewrite firstMatch_find, list_elem_of_fmap, fmap_None, list_find_None.
  rewrite Forall_forall. split.
  - intros H (m & -> & Hin). exact (H m Hin eq_refl).
  - intros H m Hin Heq. apply H. exists m. split; [symmetry|]; assumption.
Qed.

Lemma firstMatch_elem_of id (ms : list Movie) :
  id ∈ ID <$> ms -> exists i m, firstMatch id ms = Some i /\ first_at id ms i m.
Proof.
  intros Hin. destruct (firstMatch id ms) as [i|] eqn:E.
  - destruct (proj1 (firstMatch_Some id ms i) E) as [m Hm]. eauto.
  - apply firstMatch_None in E. contradiction.
Qed.

Lemma first_at_lookup_total id (ms : list Movie) i m :
  first_at id ms i m -> ms !!! i = m.
Proof. intros (Hm & _). by apply list_lookup_total_correct. Qed.

Lemma first_at_lt id (ms : list Movie) i m :
  first_at id ms i m -> i < length ms.
Proof. intros (Hm & _). by apply lookup_lt_Some in Hm. Qed.

Lemma first_at_unique id (ms : list Movie) i m i' m' :
  first_at id ms i m -> first_at id ms i' m' -> i = i' /\ m = m'.
Proof.
  intros H H'.
  assert (firstMatch id ms = Some i) as E by (apply firstMatch_Some; eauto).
  assert (firstMatch id ms = Some i') as E' by (apply firstMatch_Some; eauto).
  assert (i = i') as <- by congruence.
  split; [reflexivity|]. destruct H as [H _], H' as [H' _]. congruence.
Qed.

Lemma params_id_singleton (id : string) :
  params_id {[ "id" := id ]} = id.
Proof. unfold params_id. by rewrite lookup_singleton_eq. Qed.

(** ** Removing the record at an index *)

Lemma remove_at_sublist (ms : list Movie) i :
  take i ms ++ drop (S i) ms `sublist_of` ms.
Proof. rewrite <- delete_take_drop. apply sublist_delete. Qed.

Lemma remove_at_length (ms : list Movie) i :
  i < length ms -> S (length (take i ms ++ drop (S i) ms)) = length ms.
Proof.
  intros Hi. rewrite length_app, length_take, length_drop. lia.
Qed.

Lemma occurrences_app id (ms1 ms2 : list Movie) :
  occurrences id (ms1 ++ ms2) = occurrences id ms1 + occurrences id ms2.
Proof. unfold occurrences. by rewrite filter_app, length_app. Qed.

Lemma occurrences_0 id (ms : list Movie) :
  occurrences id ms = 0 <-> id ∉ ID <$> ms.
Proof.
  unfold occurrences. induction ms as [|m ms IH]; simpl.
  - split; [intros _; apply not_elem_of_nil | reflexivity].
  - rewrite filter_cons, not_elem_of_cons.
    destruct (decide (ID m = id)) as [Heq|Hne]; simpl.
    + split; [discriminate | intros [Hne _]; congruence].
    + rewrite IH. split; [intros H; split; [congruence | exact H] | tauto].
Qed.

Lemma occurrences_before_first id (ms : list Movie) i m :
  first_at id ms i m -> occurrences id (take i ms) = 0.
Proof.
  intros (_ & _ & Hlt). apply occurrences_0.
  intros (m' & -> & Hin)%list_elem_of_fmap.
  apply list_elem_of_lookup in Hin as [j Hj].
  apply lookup_take_Some in Hj as [Hj Hji].
  exact (Hlt j m' Hji Hj eq_refl).
Qed.

Lemma occurrences_remove_first id (ms : list Movie) i m :
  first_at id ms i m ->
  occurrences id ms = S (occurrences id (take i ms ++ drop (S i) ms)).
Proof.
  intros Hfirst. pose proof Hfirst as (Hm & Hid & _).
  rewrite <- (take_drop_middle ms i m Hm) at 1.
  rewrite !occurrences_app, (occurrences_before_first _ _ _ _ Hfirst).
  change (m :: drop (S i) ms) with ([m] ++ drop (S i) ms).
  rewrite occurrences_app. unfold occurrences at 1.
  rewrite filter_cons_True by exact Hid. reflexivity.
Qed.

Lemma ids_remove_append id (ms : list Movie) i m new :
  first_at id ms i m -> ID new = id ->
  ID <$> (take i ms ++ drop (S i) ms) ++ [new] ≡ₚ ID <$> ms.
Proof.
  intros (Hm & Hid & _) Hnew.
  rewrite <- (take_drop_middle ms i m Hm) at 3.
  rewrite !fmap_app, fmap_cons. simpl. rewrite Hnew, Hid.
  rewrite <- app_assoc. apply Permutation_app_head.
  rewrite <- Permutation_cons_append. reflexivity.
Qed.

(** ** The five routes, one equation each *)

Section Routes.

Variable Decode : string -> Movie -> Movie * option DecodeError.
Variable Rng : Type.
Variable Intn : Z -> Rng -> Z * Rng.

Lemma fresh_writer_header :
  Header_Set "Content-Type" "application/json" newResponseWriter
  = empty_response.
Proof.
  unfold Header_Set, empty_response, newResponseWriter. simpl.
  by rewrite insert_empty.
Qed.

Lemma serve_GET_movies body (s : State Rng) :
  serve Decode Intn GET_movies body s
  = (s, Encode (EncMovies (movies s)) empty_response).
Proof. unfold serve, getMovies. by rewrite fresh_writer_header. Qed.

Lemma serve_GET_movies_id id body (s : State Rng) :
  serve Decode Intn (GET_movies_id id) body s
  = match firstMatch id (movies s) with
    | Some i => (s, Encode (EncMovie (movies s !!! i)) empty_response)
    | None => (s, empty_response)
    end.
Proof.
  unfold serve, getMovie. cbn [Vars Body].
  by rewrite fresh_writer_header, params_id_singleton.
Qed.

Lemma serve_GET_first_at id body (s : State Rng) i m :
  first_at id (movies s) i m ->
  serve Decode Intn (GET_movies_id id) body s
  = (s, Encode (EncMovie m) empty_response).
Proof.
  intros H. rewrite serve_GET_movies_id.
  assert (firstMatch id (movies s) = Some i) as ->
    by (apply firstMatch_Some; eauto).
  by rewrite (first_at_lookup_total _ _ _ _ H).
Qed.

Lemma serve_DELETE_movies_id id body (s : State Rng) :
  serve Decode Intn (DELETE_movies_id id) body s
  = match firstMatch id (movies s) with
    | Some i =>
        (set_movies (take i (movies s) ++ drop (S i) (movies s)) s,
         empty_response)
    | None => (s, empty_response)
    end.
Proof.
  unfold serve, deleteMovie. cbn [Vars Body].
  by rewrite fresh_writer_header, params_id_singleton.
Qed.

Lemma serve_POST_movies body (s : State Rng) :
  serve Decode Intn POST_movies body s
  = let movie :=
      set_ID (Itoa (Intn 1000000 (rng s)).1) (Decode body zeroMovie).1 in
    ({| movies := movies s ++ [movie]; rng := (Intn 1000000 (rng s)).2 |},
     Encode (EncMovie movie) empty_response).
Proof.
  unfold serve, createMovie. cbn [Vars Body].
  rewrite fresh_writer_header.
  by destruct (Intn 1000000 (rng s)) as [n g].
Qed.

Lemma serve_PUT_movies_id id body (s : State Rng) :
  serve Decode Intn (PUT_movies_id id) body s
  = match firstMatch id (movies s) with
    | Some i =>
        let movie := set_ID id (Decode body zeroMovie).1 in
        ({| movies := (take i (movies s) ++ drop (S i) (movies s))
                      ++ [movie];
            rng := rng s |},
         Encode (EncMovie movie) empty_response)
    | None => (s, empty_response)
    end.
Proof.
  unfold serve, updateMovie. cbn [Vars Body].
  rewrite fresh_writer_header, params_id_singleton.
  by destruct (firstMatch id (movies s)).
Qed.

End Routes.

(** ** Decimal ids *)

Lemma Atoi_Itoa (n : Z) : Atoi (Itoa n) = Some n.
Proof.
  unfold Atoi, Itoa. rewrite NilZero.isi.
  - simpl. f_equal. apply DecimalZ.of_to.
  - destruct n as [|p|p]; simpl; try discriminate.
    intros [= H]. exact (DecimalPos.Unsigned.to_uint_nonnil p H).
  - destruct n as [|p|p]; simpl; try discriminate.
    intros [= H]. exact (DecimalPos.Unsigned.to_uint_nonnil p H).
Qed.

Lemma occurrences_singleton_ID x (m m' : Movie) :
  ID m = ID m' -> occurrences x [m] = occurrences x [m'].
Proof.
  intros Heq. unfold occurrences. rewrite !filter_cons, !filter_nil, Heq.
  by destruct (decide (ID m' = x)).
Qed.

Lemma occurrences_remove_append x id (ms : list Movie) i m new :
  first_at id ms i m -> ID new = id ->
  occurrences x ((take i ms ++ drop (S i) ms) ++ [new]) = occurrences x ms.
Proof.
  intros (Hm & Hid & _) Hnew.
  rewrite <- (take_drop_middle ms i m Hm) at 3.
  change (m :: drop (S i) ms) with ([m] ++ drop (S i) ms).
  rewrite !occurrences_app.
  rewrite (occurrences_singleton_ID x new m) by congruence. lia.
Qed.

(** * The handlers against their specification *)

Section Claims.

Variable Decode : string -> Movie -> Movie * option DecodeError.
Variable Rng : Type.
Variable Intn : Z -> Rng -> Z * Rng.

(** [rand.Intn(n)] returns a number of the half-open interval [[0, n)]. *)
Hypothesis Intn_range :
  forall n g, (0 < n)%Z -> (0 <= (Intn n g).1 < n)%Z.

Implicit Types (s : State Rng) (id body : string).

(** C3. GET /movies/{id} scans the collection in order and writes the
    first record whose id is the path parameter, with status 200; when
    no record has that id it writes no body and the status is still 200.
    The collection is unchanged in both cases. *)
Theorem getMovie_first_match id body s :
  let r := serve Decode Intn (GET_movies_id id) body s in
  r.1 = s /\ status r.2 = 200%Z /\
  (forall i m, first_at id (movies s) i m -> written r.2 = [EncMovie m]) /\
  (id ∉ ID <$> movies s -> written r.2 = []).
Proof.
  cbv zeta. destruct (firstMatch id (movies s)) as [i0|] eqn:E.
  - destruct (proj1 (firstMatch_Some _ _ _) E) as [m0 H0].
    rewrite (serve_GET_first_at Decode Rng Intn id body s i0 m0 H0). cbn [fst snd].
    repeat split.
    + intros i m H. by destruct (first_at_unique _ _ _ _ _ _ H H0) as [-> ->].
    + intros Hno. apply firstMatch_None in Hno. congruence.
  - rewrite serve_GET_movies_id, E. cbn [fst snd]. repeat split.
    intros i m H.
    assert (firstMatch id (movies s) = Some i) by (apply firstMatch_Some; eauto).
    congruence.
Qed.

(** C4. DELETE /movies/{id} for an id some record has: the first such
    record is removed and no other, the collection is one shorter, the
    remaining records keep their order, and no body is written. *)
Theorem deleteMovie_removes_first id body s :
  id ∈ ID <$> movies s ->
  let r := serve Decode Intn (DELETE_movies_id id) body s in
  exists i m,
    first_at id (movies s) i m /\
    movies r.1 = take i (movies s) ++ drop (S i) (movies s) /\
    S (length (movies r.1)) = length (movies s) /\
    S (occurrences id (movies r.1)) = occurrences id (movies s) /\
    movies r.1 `sublist_of` movies s /\
    rng r.1 = rng s /\
    written r.2 = [] /\ status r.2 = 200%Z.
Proof.
  intros Hin. cbv zeta. rewrite serve_DELETE_movies_id.
  destruct (firstMatch_elem_of _ _ Hin) as (i & m & -> & Hfirst).
  exists i, m. cbn [fst snd movies rng set_movies].
  repeat split; try apply Hfirst.
  - apply remove_at_length. by eapply first_at_lt.
  - symmetry. by eapply occurrences_remove_first.
  - apply remove_at_sublist.
Qed.

(** C5. PUT /movies/{id} for an id no record has: the state after the
    request is the state before it, and no body is written. *)
Theorem updateMovie_absent id body s :
  id ∉ ID <$> movies s ->
  let r := serve Decode Intn (PUT_movies_id id) body s in
  r.1 = s /\ written r.2 = [] /\ status r.2 = 200%Z.
Proof.
  intros Hno. cbv zeta. rewrite serve_PUT_movies_id.
  apply firstMatch_None in Hno. by rewrite Hno.
Qed.

(** C9. PUT /movies/{id}, for every id and body: the ids in the
    collection after the request are, as a multiset, the ids before it;
    every id occurs as often as before. *)
Theorem updateMovie_preserves_ids id body s :
  let r := serve Decode Intn (PUT_movies_id id) body s in
  ID <$> movies r.1 ≡ₚ ID <$> movies s /\
  forall x, occurrences x (movies r.1) = occurrences x (movies s).
Proof.
  cbv zeta. rewrite serve_PUT_movies_id.
  destruct (firstMatch id (movies s)) as [i|] eqn:E; cbn [fst snd movies].
  - destruct (proj1 (firstMatch_Some _ _ _) E) as [m H]. split.
    + by eapply ids_remove_append.
    + intros x. by eapply occurrences_remove_append.
  - by split.
Qed.

(** C1, as the code has it. PUT /movies/{id} for an id some record has:
    the first such record is removed, the body is decoded into a new
    Movie whose id is set to the path parameter whatever the body says,
    and the new record is appended, so it becomes the last record.  Its
    index differs from the index of the removed record exactly when the
    removed record was not the last one.  The other records keep their
    order, and the appended record is what the response carries. *)
Theorem updateMovie_found id body s :
  id ∈ ID <$> movies s ->
  let r := serve Decode Intn (PUT_movies_id id) body s in
  let new := set_ID id (Decode body zeroMovie).1 in
  exists i old,
    first_at id (movies s) i old /\
    movies r.1 = (take i (movies s) ++ drop (S i) (movies s)) ++ [new] /\
    ID new = id /\
    Isbn new = Isbn (Decode body zeroMovie).1 /\
    Title new = Title (Decode body zeroMovie).1 /\
    Director' new = Director' (Decode body zeroMovie).1 /\
    movies r.1 !! last_index (movies r.1) = Some new /\
    last_index (movies r.1) = last_index (movies s) /\
    (last_index (movies r.1) <> i <-> i < last_index (movies s)) /\
    take (last_index (movies r.1)) (movies r.1) `sublist_of` movies s /\
    rng r.1 = rng s /\
    written r.2 = [EncMovie new] /\ status r.2 = 200%Z.
Proof.
  intros Hin. cbv zeta. rewrite serve_PUT_movies_id.
  destruct (firstMatch_elem_of _ _ Hin) as (i & old & -> & Hfirst).
  exists i, old. cbn [fst snd movies rng].
  pose proof (first_at_lt _ _ _ _ Hfirst) as Hi.
  pose proof (remove_at_length _ _ Hi) as Hlen.
  set (rest := take i (movies s) ++ drop (S i) (movies s)) in *.
  assert (last_index (rest ++ [set_ID id (Decode body zeroMovie).1])
          = length rest) as Hlast.
  { unfold last_index. rewrite length_app. simpl. lia. }
  rewrite !Hlast.
  assert (length rest = last_index (movies s)) as Hrest.
  { unfold last_index. lia. }
  repeat split; try done; try apply Hfirst.
  - by rewrite lookup_app_r, Nat.sub_diag by lia.
  - lia.
  - lia.
  - rewrite take_app_length. apply remove_at_sublist.
Qed.

(** C2. POST /movies: the stored record is the decoded body with its id
    replaced by the decimal rendering of the number drawn from
    [[0, 1000000)]; it is appended whether or not that id is already in
    the collection, the collection grows by one, and the response
    carries that record. *)
Theorem createMovie_appends body s :
  let r := serve Decode Intn POST_movies body s in
  let n := (Intn 1000000 (rng s)).1 in
  let new := set_ID (Itoa n) (Decode body zeroMovie).1 in
  (0 <= n < 1000000)%Z /\
  ID new = Itoa n /\ Atoi (ID new) = Some n /\
  movies r.1 = movies s ++ [new] /\
  length (movies r.1) = S (length (movies s)) /\
  occurrences (ID new) (movies r.1) = S (occurrences (ID new) (movies s)) /\
  rng r.1 = (Intn 1000000 (rng s)).2 /\
  written r.2 = [EncMovie new] /\ status r.2 = 200%Z.
Proof.
  cbv zeta. rewrite serve_POST_movies. cbn [fst snd movies rng set_ID ID].
  repeat split; try done.
  - by apply Intn_range.
  - by apply Intn_range.
  - apply Atoi_Itoa.
  - rewrite length_app. simpl. lia.
  - rewrite occurrences_app. unfold occurrences at 2.
    rewrite filter_cons_True by done. simpl. lia.
Qed.


(** C8. The start state holds the two seed records in insertion order,
    and GET /movies writes exactly that sequence. *)
Theorem main_init_seeds (g : Rng) body :
  let s0 := main_init g in
  let r := serve Decode Intn GET_movies body s0 in
  movies s0 =
    [ {| ID := "1"; Isbn := "123456"; Title := "Movie One";
         Director' := Some {| Firstname := "Lebron"; Lastname := "James" |} |};
      {| ID := "2"; Isbn := "654321"; Title := "Movie Two";
         Director' := Some {| Firstname := "Joe"; Lastname := "Biden" |} |} ] /\
  r.1 = s0 /\
  written r.2 = [EncMovies (movies s0)] /\ status r.2 = 200%Z.
Proof. cbv zeta. rewrite serve_GET_movies. by cbn. Qed.

(** C10. DELETE /movies/{id} removes at most one record; when two or
    more records have the id it removes the earliest one only, and a
    GET /movies/{id} after it still writes a record with that id. *)
Theorem deleteMovie_at_most_one id body body' s :
  let r := serve Decode Intn (DELETE_movies_id id) body s in
  length (movies s) <= S (length (movies r.1)) /\
  length (movies r.1) <= length (movies s) /\
  (2 <= occurrences id (movies s) ->
   exists i m,
     first_at id (movies s) i m /\
     movies r.1 = take i (movies s) ++ drop (S i) (movies s) /\
     S (occurrences id (movies r.1)) = occurrences id (movies s) /\
     exists m',
       ID m' = id /\ m' ∈ movies r.1 /\
       written (serve Decode Intn (GET_movies_id id) body' r.1).2
       = [EncMovie m']).
Proof.
  cbv zeta. rewrite serve_DELETE_movies_id.
  destruct (firstMatch id (movies s)) as [i|] eqn:E;
    cbn [fst snd movies set_movies].
  - destruct (proj1 (firstMatch_Some _ _ _) E) as [m Hfirst].
    pose proof (remove_at_length _ _ (first_at_lt _ _ _ _ Hfirst)) as Hlen.
    pose proof (occurrences_remove_first _ _ _ _ Hfirst) as Hocc.
    split; [lia|]. split; [lia|]. intros Htwo.
    exists i, m. repeat split; try apply Hfirst; [done|].
    set (s1 := set_movies _ s).
    assert (id ∈ ID <$> movies s1) as Hin.
    { destruct (decide (id ∈ ID <$> movies s1)) as [|Hno]; [done|].
      apply occurrences_0 in Hno. cbn [s1 movies set_movies] in Hno. lia. }
    destruct (firstMatch_elem_of _ _ Hin) as (j & m' & _ & Hj).
    exists m'. split; [apply Hj|]. split.
    + apply list_elem_of_lookup. exists j. apply Hj.
    + by rewrite (serve_GET_first_at Decode Rng Intn id body' s1 j m' Hj).
  - split; [lia|]. split; [lia|]. intros Htwo.
    apply firstMatch_None, occurrences_0 in E. lia.
Qed.

(** C6, as the code has it. DELETE /movies/{id} always answers with the
    same empty response; for an id no record has it leaves the
    collection unchanged; and deleting twice leaves the state of
    deleting once exactly when at most one record has the id. *)
Theorem deleteMovie_twice id body s :
  let once := serve Decode Intn (DELETE_movies_id id) body s in
  let twice := serve Decode Intn (DELETE_movies_id id) body once.1 in
  once.2 = empty_response /\ twice.2 = once.2 /\
  written once.2 = [] /\ status once.2 = 200%Z /\
  (id ∉ ID <$> movies s -> once.1 = s) /\
  (twice.1 = once.1 <-> occurrences id (movies s) <= 1).
Proof.
  cbv zeta. rewrite !serve_DELETE_movies_id.
  destruct (firstMatch id (movies s)) as [i|] eqn:E; cbn [fst snd].
  - destruct (proj1 (firstMatch_Some _ _ _) E) as [m Hfirst].
    pose proof (occurrences_remove_first _ _ _ _ Hfirst) as Hocc.
    set (s1 := set_movies _ s) in *.
    assert (movies s1 = take i (movies s) ++ drop (S i) (movies s)) as Hs1
      by done.
    rewrite <- Hs1 in Hocc.
    destruct (firstMatch id (movies s1)) as [j|] eqn:E1; cbn [fst snd].
    + destruct (proj1 (firstMatch_Some _ _ _) E1) as [m1 H1].
      pose proof (occurrences_remove_first _ _ _ _ H1) as Hocc1.
      pose proof (remove_at_length _ _ (first_at_lt _ _ _ _ H1)) as Hlen1.
      repeat split; try done.
      * intros Hno. apply firstMatch_None in Hno. congruence.
      * intros Heq. apply (f_equal (fun st => length (movies st))) in Heq.
        cbn [movies set_movies] in Heq. lia.
      * lia.
    + repeat split; try done.
      * intros Hno. apply firstMatch_None in Hno. congruence.
      * intros _. apply firstMatch_None, occurrences_0 in E1. lia.
  - rewrite E. cbn [fst snd]. repeat split; try done.
    intros _. apply firstMatch_None, occurrences_0 in E. lia.
Qed.

End Claims.

(** * The handlers run on concrete requests *)

Lemma replayIntn_range (n : Z) (g : list Z) :
  (0 < n)%Z -> (0 <= (replayIntn n g).1 < n)%Z.
Proof.
  intros Hn. destruct g as [|x g]; simpl; [lia|].
  apply Z.mod_pos_bound. exact Hn.
Qed.

Lemma seed_ids (g : list Z) : ID <$> movies (main_init g) = ["1"; "2"].
Proof. reflexivity. Qed.

Lemma seed_id_1 (g : list Z) : "1" ∈ ID <$> movies (main_init g).
Proof. rewrite seed_ids. repeat constructor. Qed.

Lemma seed_id_2 (g : list Z) : "2" ∈ ID <$> movies (main_init g).
Proof. rewrite seed_ids. repeat constructor. Qed.

Lemma seed_id_999 (g : list Z) : "999" ∉ ID <$> movies (main_init g).
Proof.
  rewrite seed_ids, !not_elem_of_cons.
  repeat split; try discriminate. apply not_elem_of_nil.
Qed.

(** GET /movies/1 and GET /movies/999 in the start state. *)
Lemma getMovie_first_match_witness :
  let s0 := main_init ([] : list Z) in
  written (serve stubDecode replayIntn (GET_movies_id "1") "" s0).2
  = [EncMovie seed1] /\
  written (serve stubDecode replayIntn (GET_movies_id "999") "" s0).2 = [].
Proof.
  split.
  - apply (proj1 (proj2 (proj2
      (getMovie_first_match stubDecode (list Z) replayIntn "1" ""
         (main_init []))))) with (i := 0).
    repeat split. intros j m' Hj. lia.
  - apply (proj2 (proj2 (proj2
      (getMovie_first_match stubDecode (list Z) replayIntn "999" ""
         (main_init []))))).
    apply seed_id_999.
Defined.

(** DELETE /movies/2 in the start state. *)
Lemma deleteMovie_removes_first_witness :
  let s0 := main_init ([] : list Z) in
  let r := serve stubDecode replayIntn (DELETE_movies_id "2") "" s0 in
  ("2" ∈ ID <$> movies s0) /\
  S (length (movies r.1)) = length (movies s0) /\ written r.2 = [].
Proof.
  assert ("2" ∈ ID <$> movies (main_init ([] : list Z))) as Hin
    by apply seed_id_2.
  split; [exact Hin|].
  destruct (deleteMovie_removes_first stubDecode (list Z) replayIntn
              "2" "" (main_init []) Hin)
    as (i & m & _ & _ & Hlen & _ & _ & _ & Hw & _).
  split; [exact Hlen | exact Hw].
Defined.

(** PUT /movies/999 in the start state. *)
Lemma updateMovie_absent_witness :
  let s0 := main_init ([] : list Z) in
  let r := serve stubDecode replayIntn (PUT_movies_id "999") body_new s0 in
  ("999" ∉ ID <$> movies s0) /\ r.1 = s0 /\ written r.2 = [].
Proof.
  assert ("999" ∉ ID <$> movies (main_init ([] : list Z))) as Hno
    by apply seed_id_999.
  split; [exact Hno|].
  destruct (updateMovie_absent stubDecode (list Z) replayIntn
              "999" body_new (main_init []) Hno) as (Hs & Hw & _).
  split; [exact Hs | exact Hw].
Defined.

(** PUT /movies/1 in the start state, with a body that carries the id
    42: the stored and returned record has the id 1. *)
Lemma updateMovie_found_witness :
  let s0 := main_init ([] : list Z) in
  let r := serve stubDecode replayIntn (PUT_movies_id "1") body_other s0 in
  ("1" ∈ ID <$> movies s0) /\
  ID (stubDecode body_other zeroMovie).1 = "42" /\
  written r.2
  = [EncMovie {| ID := "1"; Isbn := ""; Title := "Other";
                 Director' := None |}].
Proof.
  assert ("1" ∈ ID <$> movies (main_init ([] : list Z))) as Hin
    by apply seed_id_1.
  split; [exact Hin|]. split; [reflexivity|].
  destruct (updateMovie_found stubDecode (list Z) replayIntn
              "1" body_other (main_init []) Hin)
    as (i & old & _ & _ & _ & _ & _ & _ & _ & _ & _ & _ & _ & Hw & _).
  exact Hw.
Defined.

(** POST /movies in the start state, the random source drawing 424242. *)
Lemma createMovie_appends_witness :
  let s0 := main_init [424242%Z] in
  let r := serve stubDecode replayIntn POST_movies body_new s0 in
  movies r.1
  = movies s0 ++
    [ {| ID := "424242"; Isbn := "999"; Title := "New";
         Director' := Some {| Firstname := "A"; Lastname := "B" |} |} ].
Proof.
  exact (proj1 (proj2 (proj2 (proj2
    (createMovie_appends stubDecode (list Z) replayIntn replayIntn_range
       body_new (main_init [424242%Z])))))).
Defined.


(** The start state, then a POST whose draw is 1: two records have the
    id 1.  DELETE /movies/1 followed by GET /movies/1 finds a record. *)
Lemma deleteMovie_at_most_one_witness :
  let s := (serve stubDecode replayIntn POST_movies body_new
              (main_init [1%Z])).1 in
  let r := serve stubDecode replayIntn (DELETE_movies_id "1") "" s in
  2 <= occurrences "1" (movies s) /\
  exists m', ID m' = "1" /\
    written (serve stubDecode replayIntn (GET_movies_id "1") "" r.1).2
    = [EncMovie m'].
Proof.
  set (s := (serve stubDecode replayIntn POST_movies body_new
               (main_init [1%Z])).1).
  assert (2 <= occurrences "1" (movies s)) as Htwo by (vm_compute; lia).
  cbv zeta. split; [exact Htwo|].
  destruct (proj2 (proj2 (deleteMovie_at_most_one stubDecode (list Z)
              replayIntn "1" "" "" s)) Htwo)
    as (i & m & _ & _ & _ & m' & Hid & _ & Hw).
  exists m'. split; [exact Hid | exact Hw].
Defined.

(** DELETE /movies/2 twice in the start state, where one record has the
    id 2. *)
Lemma deleteMovie_twice_witness :
  let s0 := main_init ([] : list Z) in
  let once := serve stubDecode replayIntn (DELETE_movies_id "2") "" s0 in
  let twice := serve stubDecode replayIntn (DELETE_movies_id "2") "" once.1 in
  occurrences "2" (movies s0) <= 1 /\ twice.1 = once.1.
Proof.
  assert (occurrences "2" (movies (main_init ([] : list Z))) <= 1) as Hone
    by (vm_compute; lia).
  cbv zeta. split; [exact Hone|].
  destruct (deleteMovie_twice stubDecode (list Z) replayIntn "2" ""
              (main_init [])) as (_ & _ & _ & _ & _ & Hiff).
  exact (proj2 Hiff Hone).
Defined.

(** C1 as stated fails where the matched record is the last one:
    PUT /movies/2 in the start state matches the record at index 1 and
    appends the new record at index 1; the order of the ids is the one
    before the request. *)
Lemma updateMovie_last_record_keeps_index :
  let s0 := main_init ([] : list Z) in
  let r := serve stubDecode replayIntn (PUT_movies_id "2") body_other s0 in
  ("2" ∈ ID <$> movies s0) /\
  first_at "2" (movies s0) 1 seed2 /\
  ~ (last_index (movies r.1) <> 1) /\
  ID <$> movies r.1 = ID <$> movies s0.
Proof.
  cbv zeta. split; [apply seed_id_2|].
  split.
  - repeat split. intros j m' Hj Hm'.
    destruct j as [|j]; [|lia]. by injection Hm' as <-.
  - split; [|reflexivity]. intros H. by apply H.
Qed.


(** C6 as stated fails where two records have the id: the start state,
    then a POST whose draw is 1, then DELETE /movies/1 twice removes
    both records, DELETE /movies/1 once removes one. *)
Lemma deleteMovie_twice_removes_two :
  let s := (serve stubDecode replayIntn POST_movies body_new
              (main_init [1%Z])).1 in
  let once := serve stubDecode replayIntn (DELETE_movies_id "1") "" s in
  let twice := serve stubDecode replayIntn (DELETE_movies_id "1") "" once.1 in
  ID <$> movies s = ["1"; "2"; "1"] /\
  ID <$> movies once.1 = ["2"; "1"] /\
  ID <$> movies twice.1 = ["2"] /\
  twice.1 <> once.1.
Proof.
  cbv zeta. repeat split; try (vm_compute; reflexivity).
  intros H. apply (f_equal (fun st => length (movies st))) in H.
  vm_compute in H. discriminate.
Qed.

(** * Beyond single requests: what the handlers keep, and how requests
    compose *)

(** ** The record a scan finds, as the head of a filter *)

Lemma filter_remove_at (Q : Movie -> Prop) `{!forall m, Decision (Q m)}
    (ms : list Movie) i m :
  ms !! i = Some m -> ~ Q m ->
  filter Q (take i ms ++ drop (S i) ms) = filter Q ms.
Proof.
  intros Hm HQ. rewrite <- (take_drop_middle ms i m Hm) at 3.
  by rewrite !filter_app, filter_cons_False.
Qed.

Lemma absent_filter_nil id (ms : list Movie) :
  id ∉ ID <$> ms -> filter (fun m => ID m = id) ms = [].
Proof. intros H. by apply nil_length_inv, occurrences_0. Qed.

Lemma absent_filter_ne id (ms : list Movie) :
  id ∉ ID <$> ms -> filter (fun m => ID m <> id) ms = ms.
Proof.
  induction ms as [|m ms IH]; [done|].
  rewrite fmap_cons, not_elem_of_cons. intros [Hne Hno].
  rewrite filter_cons_True by congruence. by rewrite IH.
Qed.

Lemma first_at_filter id (ms : list Movie) i m :
  first_at id ms i m ->
  filter (fun m => ID m = id) ms
  = m :: filter (fun m => ID m = id) (take i ms ++ drop (S i) ms).
Proof.
  intros Hfirst. pose proof Hfirst as (Hm & Hid & _).
  pose proof (occurrences_before_first _ _ _ _ Hfirst) as Hnil.
  apply nil_length_inv in Hnil.
  rewrite <- (take_drop_middle ms i m Hm) at 1.
  by rewrite !filter_app, Hnil, filter_cons_True.
Qed.

Lemma first_at_app_new id (ms : list Movie) new :
  id ∉ ID <$> ms -> ID new = id -> first_at id (ms ++ [new]) (length ms) new.
Proof.
  intros Hno Hnew. repeat split; [|exact Hnew|].
  - by rewrite lookup_app_r, Nat.sub_diag by lia.
  - intros j m' Hj Hm' Heq. rewrite lookup_app_l in Hm' by lia.
    apply Hno, list_elem_of_fmap. exists m'. split; [done|].
    apply list_elem_of_lookup. eauto.
Qed.

Lemma first_at_app_l id (ms ks : list Movie) j m :
  first_at id ms j m -> first_at id (ms ++ ks) j m.
Proof.
  intros (Hm & Hid & Hbefore).
  pose proof (lookup_lt_Some _ _ _ Hm) as Hlt.
  repeat split; [by rewrite lookup_app_l | done |].
  intros j' m' Hj' Hm'. rewrite lookup_app_l in Hm' by lia.
  by apply (Hbefore j' m').
Qed.

Lemma remove_at_app_last (ms : list Movie) new :
  take (length ms) (ms ++ [new]) ++ drop (S (length ms)) (ms ++ [new]) = ms.
Proof.
  rewrite take_app_length, drop_ge, app_nil_r; [done|].
  rewrite length_app. simpl. lia.
Qed.


Section Compositions.

Variable Decode : string -> Movie -> Movie * option DecodeError.
Variable Rng : Type.
Variable Intn : Z -> Rng -> Z * Rng.

(** [rand.Intn(n)] returns a number of the half-open interval [[0, n)]. *)
Hypothesis Intn_range :
  forall n g, (0 < n)%Z -> (0 <= (Intn n g).1 < n)%Z.

Implicit Types (s : State Rng) (id body : string).

Lemma serve_GET_written id body s :
  written (serve Decode Intn (GET_movies_id id) body s).2
  = match head (filter (fun m => ID m = id) (movies s)) with
    | Some m => [EncMovie m]
    | None => []
    end.
Proof.
  destruct (firstMatch id (movies s)) as [i|] eqn:E.
  - destruct (proj1 (firstMatch_Some _ _ _) E) as [m H].
    rewrite (serve_GET_first_at Decode Rng Intn id body s i m H).
    by rewrite (first_at_filter _ _ _ _ H).
  - rewrite serve_GET_movies_id, E.
    apply firstMatch_None in E. by rewrite (absent_filter_nil _ _ E).
Qed.

Lemma serve_DELETE_found id body s i m :
  first_at id (movies s) i m ->
  serve Decode Intn (DELETE_movies_id id) body s
  = (set_movies (take i (movies s) ++ drop (S i) (movies s)) s,
     empty_response).
Proof.
  intros H. rewrite serve_DELETE_movies_id.
  by assert (firstMatch id (movies s) = Some i) as ->
    by (apply firstMatch_Some; eauto).
Qed.

Lemma serve_PUT_found id body s i m :
  first_at id (movies s) i m ->
  serve Decode Intn (PUT_movies_id id) body s
  = ({| movies := (take i (movies s) ++ drop (S i) (movies s))
                  ++ [set_ID id (Decode body zeroMovie).1];
        rng := rng s |},
     Encode (EncMovie (set_ID id (Decode body zeroMovie).1)) empty_response).
Proof.
  intros H. rewrite serve_PUT_movies_id.
  by assert (firstMatch id (movies s) = Some i) as ->
    by (apply firstMatch_Some; eauto).
Qed.

Lemma serve_absent id body s :
  id ∉ ID <$> movies s ->
  serve Decode Intn (DELETE_movies_id id) body s = (s, empty_response) /\
  serve Decode Intn (PUT_movies_id id) body s = (s, empty_response).
Proof.
  intros Hno. apply firstMatch_None in Hno.
  by rewrite serve_DELETE_movies_id, serve_PUT_movies_id, Hno.
Qed.

(** X1. Whatever the request, the writer and the state, each of the five
    handlers sets the header Content-Type to application/json, keeps the
    other headers, keeps what was written to the body before it ran and
    writes at most one value after it. *)
Theorem handlers_content_type (r : Request) (w : ResponseWriter) s :
  Forall (fun out : State Rng * ResponseWriter =>
            Header out.2
            = <["Content-Type" := "application/json"]> (Header w) /\
            written w `prefix_of` written out.2 /\
            length (written out.2) <= S (length (written w)))
    [ getMovies r w s; getMovie r w s; createMovie Decode Intn r w s;
      updateMovie Decode r w s; deleteMovie r w s ].
Proof.
  assert (forall v, written w `prefix_of` written w ++ [v]) as Hpre
    by (intros v; by exists [v]).
  assert (forall v : Encoded, length (written w ++ [v]) <= S (length (written w)))
    as Hlen by (intros v; rewrite length_app; simpl; lia).
  repeat apply List.Forall_cons; [| | | | |apply List.Forall_nil].
  - unfold getMovies. cbn. auto.
  - unfold getMovie.
    destruct (firstMatch _ _); cbn; auto.
  - unfold createMovie. destruct (Intn _ _). cbn. auto.
  - unfold updateMovie.
    destruct (firstMatch _ _); cbn; auto.
  - unfold deleteMovie.
    destruct (firstMatch _ _); cbn; auto.
Qed.

(** X2. One request and the size of the collection: the two GET routes
    leave the whole state as it is; POST makes the collection one longer
    and is the only route that advances the random source; PUT keeps the
    length whether or not the id is found; DELETE makes it one shorter
    when some record has the id and keeps it otherwise. *)
Theorem serve_step_summary (rt : Route) body s :
  let s' := (serve Decode Intn rt body s).1 in
  match rt with
  | GET_movies | GET_movies_id _ => s' = s
  | POST_movies =>
      length (movies s') = S (length (movies s)) /\
      rng s' = (Intn 1000000 (rng s)).2
  | PUT_movies_id _ =>
      length (movies s') = length (movies s) /\ rng s' = rng s
  | DELETE_movies_id id =>
      length (movies s')
      = length (movies s) - (if decide (id ∈ ID <$> movies s) then 1 else 0) /\
      rng s' = rng s
  end.
Proof.
  cbv zeta. destruct rt as [|id| |id|id].
  - by rewrite serve_GET_movies.
  - rewrite serve_GET_movies_id. by destruct (firstMatch _ _).
  - rewrite serve_POST_movies. cbn. rewrite length_app. simpl. split; [lia|done].
  - destruct (firstMatch id (movies s)) as [i|] eqn:E.
    + destruct (proj1 (firstMatch_Some _ _ _) E) as [m H].
      rewrite (serve_PUT_found _ _ _ _ _ H). cbn.
      pose proof (remove_at_length _ _ (first_at_lt _ _ _ _ H)).
      rewrite length_app. simpl. split; [lia|done].
    + apply firstMatch_None in E.
      by rewrite (proj2 (serve_absent id body s E)).
  - destruct (firstMatch id (movies s)) as [i|] eqn:E.
    + destruct (proj1 (firstMatch_Some _ _ _) E) as [m H].
      rewrite (serve_DELETE_found _ _ _ _ _ H). cbn.
      pose proof (remove_at_length _ _ (first_at_lt _ _ _ _ H)).
      rewrite decide_True; [split; [lia|done]|].
      destruct (decide (id ∈ ID <$> movies s)) as [|Hno]; [done|].
      apply firstMatch_None in Hno. congruence.
    + apply firstMatch_None in E.
      rewrite (proj1 (serve_absent id body s E)). cbn.
      rewrite decide_False by done. split; [lia|done].
Qed.



(** X4. DELETE /movies/{id} where at most one record has the id: after
    it no record has the id, GET /movies/{id} writes no body, and
    GET /movies lists exactly the records with another id, in their old
    order. *)
Theorem delete_then_get id body body1 body2 s :
  occurrences id (movies s) <= 1 ->
  let s1 := (serve Decode Intn (DELETE_movies_id id) body s).1 in
  (id ∉ ID <$> movies s1) /\
  written (serve Decode Intn (GET_movies_id id) body1 s1).2 = [] /\
  written (serve Decode Intn GET_movies body2 s1).2
  = [EncMovies (filter (fun m => ID m <> id) (movies s))].
Proof.
  intros Hocc. cbv zeta.
  assert (forall s1 : State Rng,
            id ∉ ID <$> movies s1 ->
            movies s1 = filter (fun m => ID m <> id) (movies s) ->
            (id ∉ ID <$> movies s1) /\
            written (serve Decode Intn (GET_movies_id id) body1 s1).2 = [] /\
            written (serve Decode Intn GET_movies body2 s1).2
            = [EncMovies (filter (fun m => ID m <> id) (movies s))]) as Hfin.
  { intros s1 Hno Heq. split; [done|]. split.
    - by rewrite serve_GET_written, (absent_filter_nil _ _ Hno).
    - rewrite serve_GET_movies. cbn. by rewrite Heq. }
  destruct (firstMatch id (movies s)) as [i|] eqn:E.
  - destruct (proj1 (firstMatch_Some _ _ _) E) as [m H].
    rewrite (serve_DELETE_found _ _ _ _ _ H). cbn [fst].
    pose proof (occurrences_remove_first _ _ _ _ H) as Hrem.
    assert (id ∉ ID <$> take i (movies s) ++ drop (S i) (movies s)) as Hno
      by (apply occurrences_0; lia).
    apply Hfin; cbn [movies set_movies]; [done|].
    rewrite <- (absent_filter_ne _ _ Hno) at 1.
    destruct H as (Hm & Hid & _).
    apply (filter_remove_at (fun m => ID m <> id) _ _ _ Hm). by intros ?.
  - apply firstMatch_None in E.
    rewrite (proj1 (serve_absent id body s E)). cbn [fst].
    apply Hfin; [done|]. by rewrite absent_filter_ne.
Qed.

(** X5. DELETE /movies/{id} repeated as often as records have the id
    removes them all and nothing else: what is left is the records with
    another id, in their old order. *)
Theorem delete_repeated id body s :
  movies (Nat.iter (occurrences id (movies s))
            (fun st => (serve Decode Intn (DELETE_movies_id id) body st).1) s)
  = filter (fun m => ID m <> id) (movies s).
Proof.
  remember (occurrences id (movies s)) as n eqn:Hn.
  revert s Hn. induction n as [|n IH]; intros s Hn.
  - simpl. symmetry. apply absent_filter_ne, occurrences_0. done.
  - rewrite Nat.iter_succ_r.
    destruct (firstMatch id (movies s)) as [i|] eqn:E.
    + destruct (proj1 (firstMatch_Some _ _ _) E) as [m H].
      rewrite (serve_DELETE_found _ _ _ _ _ H). cbn [fst].
      pose proof (occurrences_remove_first _ _ _ _ H) as Hrem.
      rewrite IH by (cbn [movies set_movies]; lia).
      cbn [movies set_movies]. destruct H as (Hm & Hid & _).
      apply (filter_remove_at (fun m => ID m <> id) _ _ _ Hm). by intros ?.
    + apply firstMatch_None, occurrences_0 in E. lia.
Qed.

(** X6. POST /movies followed by GET /movies/{x} for the generated id x:
    when no record had the id x before, the response is the created
    record; when some record had it, the response is the first such
    older record, not the created one. *)
Theorem create_then_get body body1 s :
  let x := Itoa (Intn 1000000 (rng s)).1 in
  let new := set_ID x (Decode body zeroMovie).1 in
  let s1 := (serve Decode Intn POST_movies body s).1 in
  let got := written (serve Decode Intn (GET_movies_id x) body1 s1).2 in
  (x ∉ ID <$> movies s -> got = [EncMovie new]) /\
  (forall i old, first_at x (movies s) i old -> got = [EncMovie old]).
Proof.
  cbv zeta. rewrite serve_GET_written, serve_POST_movies.
  cbn [fst movies]. rewrite filter_app.
  set (x := Itoa _). rewrite filter_cons_True, filter_nil by done. split.
  - intros Hno. by rewrite (absent_filter_nil _ _ Hno).
  - intros i old H. by rewrite (first_at_filter _ _ _ _ H).
Qed.

(** X7. POST /movies that generates an id no record has, followed by
    DELETE /movies/{x} for that id: the collection is the one before the
    POST. *)
Theorem create_then_delete body body1 s :
  let x := Itoa (Intn 1000000 (rng s)).1 in
  x ∉ ID <$> movies s ->
  let s1 := (serve Decode Intn POST_movies body s).1 in
  movies (serve Decode Intn (DELETE_movies_id x) body1 s1).1 = movies s.
Proof.
  cbv zeta. intros Hno. rewrite serve_POST_movies. cbn [fst].
  set (x := Itoa _) in *. set (new := set_ID x _).
  set (s1 := {| movies := movies s ++ [new]; rng := _ |}).
  assert (first_at x (movies s1) (length (movies s)) new) as H
    by (by apply first_at_app_new).
  rewrite (serve_DELETE_found _ _ _ _ _ H). cbn [fst movies set_movies s1].
  apply remove_at_app_last.
Qed.

(** X8. PUT /movies/{id} where exactly one record has the id, followed
    by GET /movies/{id}: the response is the record the PUT stored. *)
Theorem update_then_get_unique id body body1 s :
  occurrences id (movies s) = 1 ->
  let s1 := (serve Decode Intn (PUT_movies_id id) body s).1 in
  written (serve Decode Intn (GET_movies_id id) body1 s1).2
  = [EncMovie (set_ID id (Decode body zeroMovie).1)].
Proof.
  intros Hocc. cbv zeta.
  destruct (firstMatch id (movies s)) as [i|] eqn:E.
  - destruct (proj1 (firstMatch_Some _ _ _) E) as [m H].
    rewrite (serve_PUT_found _ _ _ _ _ H), serve_GET_written.
    cbn [fst movies]. rewrite filter_app.
    pose proof (occurrences_remove_first _ _ _ _ H) as Hrem.
    assert (id ∉ ID <$> take i (movies s) ++ drop (S i) (movies s)) as Hno
      by (apply occurrences_0; lia).
    rewrite (absent_filter_nil _ _ Hno).
    by rewrite filter_cons_True, filter_nil.
  - apply firstMatch_None, occurrences_0 in E. lia.
Qed.

(** X9. PUT /movies/{id} where two or more records have the id: the
    record the PUT stored is the last record, and a GET /movies/{id}
    after it returns the record at an earlier index, the second of the
    old records with that id.  The scan stops there, before it reaches
    the index of the stored record; the two records can be equal as
    values. *)
Theorem update_then_get_duplicate id body body1 s :
  2 <= occurrences id (movies s) ->
  let r := serve Decode Intn (PUT_movies_id id) body s in
  let new := set_ID id (Decode body zeroMovie).1 in
  exists j old,
    filter (fun m => ID m = id) (movies s) !! 1 = Some old /\
    first_at id (movies r.1) j old /\
    j < last_index (movies r.1) /\
    movies r.1 !! last_index (movies r.1) = Some new /\
    written r.2 = [EncMovie new] /\
    written (serve Decode Intn (GET_movies_id id) body1 r.1).2
    = [EncMovie old].
Proof.
  intros Hocc. cbv zeta.
  destruct (firstMatch id (movies s)) as [i|] eqn:E.
  - destruct (proj1 (firstMatch_Some _ _ _) E) as [m H].
    rewrite (serve_PUT_found _ _ _ _ _ H). cbn [fst snd].
    pose proof (occurrences_remove_first _ _ _ _ H) as Hrem.
    pose proof (first_at_filter _ _ _ _ H) as Hf.
    set (rest := take i (movies s) ++ drop (S i) (movies s)) in *.
    set (new := set_ID id (Decode body zeroMovie).1).
    assert (id ∈ ID <$> rest) as Hin.
    { destruct (decide (id ∈ ID <$> rest)) as [|Hno]; [done|].
      apply occurrences_0 in Hno. lia. }
    destruct (firstMatch_elem_of _ _ Hin) as (j & old & _ & Hj).
    pose proof (first_at_lt _ _ _ _ Hj) as Hlt.
    set (s1 := {| movies := rest ++ [new]; rng := rng s |}).
    assert (first_at id (movies s1) j old) as Hj1
      by (by apply first_at_app_l).
    assert (last_index (movies s1) = length rest) as Hlast.
    { unfold last_index. cbn [movies s1]. rewrite length_app. simpl. lia. }
    exists j, old. rewrite Hlast. repeat split; try apply Hj1; try done.
    + by rewrite Hf, (first_at_filter _ _ _ _ Hj).
    + cbn [movies s1]. by rewrite lookup_app_r, Nat.sub_diag by lia.
    + by rewrite (serve_GET_first_at Decode Rng Intn id body1 s1 j old Hj1).
  - apply firstMatch_None, occurrences_0 in E. lia.
Qed.

(** X10. PUT /movies/{id} with the same body twice, where at most one
    record has the id: the second request leaves the state of the first
    and answers as the first did. *)
Theorem update_twice id body s :
  occurrences id (movies s) <= 1 ->
  let once := serve Decode Intn (PUT_movies_id id) body s in
  serve Decode Intn (PUT_movies_id id) body once.1 = once.
Proof.
  intros Hocc. cbv zeta.
  destruct (firstMatch id (movies s)) as [i|] eqn:E.
  - destruct (proj1 (firstMatch_Some _ _ _) E) as [m H].
    rewrite (serve_PUT_found _ _ _ _ _ H). cbn [fst].
    pose proof (occurrences_remove_first _ _ _ _ H) as Hrem.
    set (rest := take i (movies s) ++ drop (S i) (movies s)) in *.
    assert (id ∉ ID <$> rest) as Hno by (apply occurrences_0; lia).
    set (new := set_ID id (Decode body zeroMovie).1).
    set (s1 := {| movies := rest ++ [new]; rng := rng s |}).
    assert (first_at id (movies s1) (length rest) new) as H1
      by (by apply first_at_app_new).
    rewrite (serve_PUT_found _ _ _ _ _ H1). cbn [movies rng s1].
    by rewrite remove_at_app_last.
  - apply firstMatch_None in E.
    rewrite !(proj2 (serve_absent id body s E)). cbn [fst].
    by rewrite (proj2 (serve_absent id body s E)).
Qed.

(** X11. A request does not change what GET /movies/{id'} answers for
    another id: after a PUT or DELETE for a different id, after a POST
    whose generated id is different or already taken, and after either
    GET, the response for id' is the one before the request. *)
Theorem other_ids_untouched (rt : Route) body body1 id' s :
  match rt with
  | PUT_movies_id id | DELETE_movies_id id => id <> id'
  | POST_movies =>
      Itoa (Intn 1000000 (rng s)).1 <> id' \/ id' ∈ ID <$> movies s
  | GET_movies | GET_movies_id _ => True
  end ->
  written (serve Decode Intn (GET_movies_id id') body1
             (serve Decode Intn rt body s).1).2
  = written (serve Decode Intn (GET_movies_id id') body1 s).2.
Proof.
  intros Hrt. rewrite !serve_GET_written.
  destruct rt as [|id| |id|id].
  - by rewrite serve_GET_movies.
  - rewrite serve_GET_movies_id. by destruct (firstMatch _ _).
  - rewrite serve_POST_movies. cbn [fst movies]. rewrite filter_app.
    destruct Hrt as [Hne|Hin].
    + rewrite filter_cons_False by done. by rewrite filter_nil, app_nil_r.
    + destruct (firstMatch_elem_of _ _ Hin) as (i & old & _ & H).
      by rewrite (first_at_filter _ _ _ _ H).
  - destruct (firstMatch id (movies s)) as [i|] eqn:E.
    + destruct (proj1 (firstMatch_Some _ _ _) E) as [m H].
      rewrite (serve_PUT_found _ _ _ _ _ H). cbn [fst movies].
      rewrite filter_app, filter_cons_False by done.
      rewrite filter_nil, app_nil_r. destruct H as (Hm & Hid & _).
      rewrite (filter_remove_at (fun m => ID m = id') _ _ _ Hm); [done|].
      congruence.
    + apply firstMatch_None in E.
      by rewrite (proj2 (serve_absent id body s E)).
  - destruct (firstMatch id (movies s)) as [i|] eqn:E.
    + destruct (proj1 (firstMatch_Some _ _ _) E) as [m H].
      rewrite (serve_DELETE_found _ _ _ _ _ H). cbn [fst movies set_movies].
      destruct H as (Hm & Hid & _).
      rewrite (filter_remove_at (fun m => ID m = id') _ _ _ Hm); [done|].
      congruence.
    + apply firstMatch_None in E.
      by rewrite (proj1 (serve_absent id body s E)).
Qed.

End Compositions.

(** ** The compositions run on concrete requests *)


(** DELETE /movies/2 in the start state, then GET /movies/2 and
    GET /movies. *)
Lemma delete_then_get_witness :
  let s0 := main_init ([] : list Z) in
  let s1 := (serve stubDecode replayIntn (DELETE_movies_id "2") "" s0).1 in
  occurrences "2" (movies s0) <= 1 /\
  written (serve stubDecode replayIntn (GET_movies_id "2") "" s1).2 = [] /\
  written (serve stubDecode replayIntn GET_movies "" s1).2
  = [EncMovies [seed1]].
Proof.
  assert (occurrences "2" (movies (main_init ([] : list Z))) <= 1) as Hone
    by (vm_compute; lia).
  cbv zeta. split; [exact Hone|].
  destruct (delete_then_get stubDecode (list Z) replayIntn "2" "" "" ""
              (main_init []) Hone) as (_ & Hget & Hlist).
  split; [exact Hget | exact Hlist].
Defined.

(** POST in the start state with the draw 7 (a free id) and with the
    draw 1 (the id of the first seed), each followed by a GET for the
    generated id. *)
Lemma create_then_get_witness :
  written (serve stubDecode replayIntn (GET_movies_id "7") ""
             (serve stubDecode replayIntn POST_movies body_new
                (main_init [7%Z])).1).2
  = [EncMovie {| ID := "7"; Isbn := "999"; Title := "New";
                 Director' := Some {| Firstname := "A"; Lastname := "B" |} |}]
  /\
  written (serve stubDecode replayIntn (GET_movies_id "1") ""
             (serve stubDecode replayIntn POST_movies body_new
                (main_init [1%Z])).1).2
  = [EncMovie seed1].
Proof.
  split.
  - apply (proj1 (create_then_get stubDecode (list Z) replayIntn
                    body_new "" (main_init [7%Z]))).
    change (Itoa (replayIntn 1000000 (rng (main_init [7%Z]))).1) with "7".
    rewrite seed_ids, !not_elem_of_cons.
    repeat split; try discriminate. apply not_elem_of_nil.
  - apply (proj2 (create_then_get stubDecode (list Z) replayIntn
                    body_new "" (main_init [1%Z]))) with (i := 0).
    repeat split. intros j m' Hj. lia.
Defined.

(** POST in the start state with the draw 7, then DELETE /movies/7. *)
Lemma create_then_delete_witness :
  let s0 := main_init [7%Z] in
  let s1 := (serve stubDecode replayIntn POST_movies body_new s0).1 in
  ("7" ∉ ID <$> movies s0) /\
  movies (serve stubDecode replayIntn (DELETE_movies_id "7") "" s1).1
  = [seed1; seed2].
Proof.
  assert ("7" ∉ ID <$> movies (main_init [7%Z])) as Hno.
  { rewrite seed_ids, !not_elem_of_cons.
    repeat split; try discriminate. apply not_elem_of_nil. }
  cbv zeta. split; [exact Hno|].
  exact (create_then_delete stubDecode (list Z) replayIntn body_new ""
           (main_init [7%Z]) Hno).
Defined.

(** PUT /movies/1 in the start state, then GET /movies/1. *)
Lemma update_then_get_unique_witness :
  let s0 := main_init ([] : list Z) in
  let s1 := (serve stubDecode replayIntn (PUT_movies_id "1") body_new s0).1 in
  occurrences "1" (movies s0) = 1 /\
  written (serve stubDecode replayIntn (GET_movies_id "1") "" s1).2
  = [EncMovie {| ID := "1"; Isbn := "999"; Title := "New";
                 Director' := Some {| Firstname := "A"; Lastname := "B" |} |}].
Proof.
  assert (occurrences "1" (movies (main_init ([] : list Z))) = 1) as Hone
    by (vm_compute; reflexivity).
  cbv zeta. split; [exact Hone|].
  exact (update_then_get_unique stubDecode (list Z) replayIntn "1" body_new ""
           (main_init []) Hone).
Defined.

(** The start state, a POST whose draw is 1, then PUT /movies/1 and
    GET /movies/1: the PUT stores its record at index 2, and the GET
    answers with the record the POST created, the second record with
    the id 1, now at index 1. *)
Lemma update_then_get_duplicate_witness :
  let s := (serve stubDecode replayIntn POST_movies body_new
              (main_init [1%Z])).1 in
  let r := serve stubDecode replayIntn (PUT_movies_id "1") body_other s in
  2 <= occurrences "1" (movies s) /\
  exists j old,
    movies s !! 2 = Some old /\
    movies r.1 !! j = Some old /\
    j < last_index (movies r.1) /\
    written (serve stubDecode replayIntn (GET_movies_id "1") "" r.1).2
    = [EncMovie old].
Proof.
  set (s := (serve stubDecode replayIntn POST_movies body_new
               (main_init [1%Z])).1).
  assert (2 <= occurrences "1" (movies s)) as Htwo by (vm_compute; lia).
  cbv zeta. split; [exact Htwo|].
  destruct (update_then_get_duplicate stubDecode (list Z) replayIntn
              "1" body_other "" s Htwo)
    as (j & old & Hold & Hj & Hlt & _ & _ & Hw).
  exists j, old. split; [|split; [exact (proj1 Hj)|split; [exact Hlt|exact Hw]]].
  vm_compute in Hold. vm_compute. exact Hold.
Defined.

(** PUT /movies/2 twice in the start state. *)
Lemma update_twice_witness :
  let s0 := main_init ([] : list Z) in
  let once := serve stubDecode replayIntn (PUT_movies_id "2") body_other s0 in
  occurrences "2" (movies s0) <= 1 /\
  serve stubDecode replayIntn (PUT_movies_id "2") body_other once.1 = once.
Proof.
  assert (occurrences "2" (movies (main_init ([] : list Z))) <= 1) as Hone
    by (vm_compute; lia).
  cbv zeta. split; [exact Hone|].
  exact (update_twice stubDecode (list Z) replayIntn "2" body_other
           (main_init []) Hone).
Defined.

(** DELETE /movies/2 in the start state does not change the answer to
    GET /movies/1. *)
Lemma other_ids_untouched_witness :
  let s0 := main_init ([] : list Z) in
  written (serve stubDecode replayIntn (GET_movies_id "1") ""
             (serve stubDecode replayIntn (DELETE_movies_id "2") "" s0).1).2
  = written (serve stubDecode replayIntn (GET_movies_id "1") "" s0).2.
Proof.
  apply (other_ids_untouched stubDecode (list Z) replayIntn
           (DELETE_movies_id "2") "" "" "1" (main_init [])).
  discriminate.
Defined.
